(** * htmlstr: the element classifier of [htmlstr/core.py]

    A shallow embedding of [Parser] (the identifier counter, [parse] and
    [parse_children]) together with the properties of the classifier.

    The HTML engine (selectolax / lexbor) is a collaborator: a node is the
    data the classifier reads from it, namely [node.tag], [node.attributes],
    [node.text(strip=True)] and [node.iter(include_text=True)].

    Python's [str] is modelled by [string]; one [ascii] stands for the
    character with that code point (the code points below 256).  Python's
    [int] is modelled by [Z].

    Outside the model: characters above code point 255 (among them further
    digit characters that [isdigit] accepts, some of which [int] accepts as
    well), and the interpreter's recursion limit ([parse_children] recurses
    once per nesting level, so Python raises [RecursionError] on very deep
    trees).  The only exception of the model is the [ValueError] of [int]. *)

From Stdlib Require Import ZArith String Ascii List Sorted.
From stdpp Require Import base option list strings gmap.

Set Warnings "-register-all".

Open Scope string_scope.
Open Scope list_scope.
Open Scope Z_scope.

(** ** Elements (the dataclasses of core.py) *)

Inductive Element : Type :=
| Anchor (href : string) (inner : list Element)
| Image (src : string) (alt : option string)
| Text (content : string)
| Button (id : Z) (inner : list Element)
| Heading (level : Z) (inner : list Element)
| Paragraph (inner : list Element)
| TextInput (id : Z) (placeholder : option string)
| UrlInput (id : Z) (placeholder : option string)
| CheckboxInput (id : Z) (checked : bool)
| RadioInput (id : Z) (checked : bool)
| Label (inner : list Element)
| Select (inner : list Element) (multiple : bool)
| Option (text : string)
| Details (inner : list Element)
| Summary (inner : list Element).

(** ** Nodes of the collaborator

    [tag] is [None] for a node without a tag name; an attribute present
    without a value maps to [None] in the attribute dictionary. *)

Inductive LexborNode : Type :=
| Node (tag : option string)
       (attributes : gmap string (option string))
       (text : string)
       (iter : list LexborNode).

Definition tag (n : LexborNode) : option string :=
  match n with Node t _ _ _ => t end.
Definition attributes (n : LexborNode) : gmap string (option string) :=
  match n with Node _ a _ _ => a end.
Definition text (n : LexborNode) : string :=
  match n with Node _ _ x _ => x end.
Definition iter (n : LexborNode) : list LexborNode :=
  match n with Node _ _ _ cs => cs end.

(** [LexborHTMLParser(html)], of which [parse] reads [.body] only. *)
Record LexborHTMLParser : Type := { body : option LexborNode }.

(** ** Python values and built-ins used by the classifier *)

(** Truth value of a [str]: the empty string is falsy. *)
Definition truthy (s : string) : bool :=
  match s with EmptyString => false | String _ _ => true end.

(** Truth value of an [Optional[str]]: [None] and [""] are falsy. *)
Definition truthy_opt (v : option string) : bool :=
  match v with None => false | Some s => truthy s end.

(** [d.get(key, None)] on an attribute dictionary. *)
Definition get (d : gmap string (option string)) (key : string)
    (dflt : option string) : option string :=
  match d !! key with Some v => v | None => dflt end.

(** [key in d]. *)
Definition contains (d : gmap string (option string)) (key : string) : bool :=
  match d !! key with Some _ => true | None => false end.

(** [d[key]], read only under the guard [key in d]. *)
Definition subscript (d : gmap string (option string)) (key : string)
    : option string :=
  match d !! key with Some v => v | None => None end.

(** [v == lit] for an [Optional[str]] against a string literal. *)
Definition eq_lit (v : option string) (lit : string) : bool :=
  match v with Some s => String.eqb s lit | None => false end.

(** Decimal digits [0]..[9]. *)
Definition is_decimal (c : ascii) : bool :=
  let k := Z.of_nat (nat_of_ascii c) in (48 <=? k) && (k <=? 57).

Definition digit_value (c : ascii) : Z := Z.of_nat (nat_of_ascii c) - 48.

(** [c.isdigit()]: besides the decimal digits, Python counts the
    superscript digits U+00B2, U+00B3 and U+00B9 as digits. *)
Definition isdigit (c : ascii) : bool :=
  let k := Z.of_nat (nat_of_ascii c) in
  is_decimal c || (k =? 178) || (k =? 179) || (k =? 185).

(** [s[-1].isdigit()] for a non-empty [s]. *)
Fixpoint last_isdigit (s : string) : bool :=
  match s with
  | EmptyString => false
  | String c EmptyString => isdigit c
  | String _ rest => last_isdigit rest
  end.

(** [s.startswith("h")]. *)
Definition startswith_h (s : string) : bool :=
  match s with String c _ => Ascii.eqb c "h" | EmptyString => false end.

(** [s[1:]]. *)
Definition slice_from_1 (s : string) : string :=
  match s with String _ rest => rest | EmptyString => EmptyString end.

(** Exceptions the classifier can raise. *)
Inductive exn : Type := ValueError.

Inductive Result (A : Type) : Type :=
| Ok (a : A)
| Raise (e : exn).
Arguments Ok {A} a.
Arguments Raise {A} e.

(** [int(s)] on digit strings: only decimal digits are accepted, anything
    else is a [ValueError].  (Signs, blanks and underscores, which [int]
    also accepts, never reach it: the caller checks [isdigit] first.) *)
Fixpoint int_acc (s : string) (acc : Z) : Result Z :=
  match s with
  | EmptyString => Ok acc
  | String c rest =>
      if is_decimal c then int_acc rest (10 * acc + digit_value c)
      else Raise ValueError
  end.

Definition int (s : string) : Result Z :=
  match s with
  | EmptyString => Raise ValueError
  | _ => int_acc s 0
  end.

(** ** The parser object and its monad

    [Parser] has the single slot [id].  A method is a function of the
    object that returns a result or an exception, and the object as the
    call left it. *)

Record Parser : Type := mkParser { id : Z }.

(** [Parser()] *)
Definition __init__ : Parser := {| id := 0 |}.

Definition M (A : Type) : Type := Parser → Result A * Parser.

Definition ret {A} (a : A) : M A := λ self, (Ok a, self).

Definition bind {A B} (m : M A) (k : A → M B) : M B :=
  λ self,
    match m self with
    | (Ok a, self') => k a self'
    | (Raise e, self') => (Raise e, self')
    end.

Definition lift {A} (r : Result A) : M A := λ self, (r, self).

Notation "'do' x <- m ; k" := (bind m (λ x, k))
  (at level 10, x name, m at level 100, k at level 200,
   format "'[v' 'do'  x  <-  m ; '/' k ']'").

#[global] Arguments ret : simpl never.
#[global] Arguments bind : simpl never.
#[global] Arguments lift : simpl never.
#[global] Arguments int : simpl never.
#[global] Arguments isdigit : simpl never.
#[global] Arguments is_decimal : simpl never.

(** [fetch_advance_id]: return the counter, then advance it. *)
Definition fetch_advance_id : M Z :=
  λ self, (Ok (id self), {| id := id self + 1 |}).

(** ** The classifier *)

(** The block that the source repeats for [checked] (checkbox), [checked]
    (radio) and [multiple] (select):
    [if key in attributes: (attributes[key] == "true" or not attributes[key])
     else: False]. *)
Definition flag (attrs : gmap string (option string)) (key : string) : bool :=
  if contains attrs key then
    if eq_lit (subscript attrs key) "true" || negb (truthy_opt (subscript attrs key))
    then true else false
  else false.

(** The guard of the heading branch. *)
Definition heading_tag (t : string) : bool :=
  (String.length t =? 2)%nat && startswith_h t && last_isdigit t.

(** The body of the loop of [parse_children] for one [node]; [rec] is
    [self.parse_children(node)].  The result is what the iteration appends
    to [elements]. *)
Definition visit (rec : M (list Element)) (node : LexborNode)
    : M (list Element) :=
  if negb (truthy_opt (tag node)) || eq_lit (tag node) "-text" then
    let text := text node in
    if truthy text then ret [Text text] else ret []
  else if eq_lit (tag node) "a" then
    match get (attributes node) "href" None with
    | Some href =>
        if negb (truthy href) then ret []
        else
          do children <- rec;
          match children with
          | [] => ret []
          | _ => ret [Anchor href children]
          end
    | None => ret []
    end
  else if eq_lit (tag node) "img" then
    match get (attributes node) "src" None with
    | Some src =>
        if negb (truthy src) then ret []
        else
          let alt := get (attributes node) "alt" None in
          ret [Image src alt]
    | None => ret []
    end
  else if eq_lit (tag node) "button" then
    do children <- rec;
    match children with
    | [] => ret []
    | _ => do i <- fetch_advance_id; ret [Button i children]
    end
  else if heading_tag (default "" (tag node)) then
    do children <- rec;
    match children with
    | [] => ret []
    | _ =>
        do level <- lift (int (slice_from_1 (default "" (tag node))));
        ret [Heading level children]
    end
  else if eq_lit (tag node) "p" then
    do children <- rec;
    match children with
    | [] => ret []
    | _ => ret [Paragraph children]
    end
  else if eq_lit (tag node) "input" then
    let type_ := get (attributes node) "type" (Some "text") in
    if eq_lit type_ "text" then
      let placeholder := get (attributes node) "placeholder" None in
      do i <- fetch_advance_id; ret [TextInput i placeholder]
    else if eq_lit type_ "url" then
      let placeholder := get (attributes node) "placeholder" None in
      do i <- fetch_advance_id; ret [UrlInput i placeholder]
    else if eq_lit type_ "checkbox" then
      let checked := flag (attributes node) "checked" in
      do i <- fetch_advance_id; ret [CheckboxInput i checked]
    else if eq_lit type_ "radio" then
      let checked := flag (attributes node) "checked" in
      do i <- fetch_advance_id; ret [RadioInput i checked]
    else ret []
  else if eq_lit (tag node) "select" then
    do children <- rec;
    match children with
    | [] => ret []
    | _ =>
        let multiple := flag (attributes node) "multiple" in
        ret [Select children multiple]
    end
  else if eq_lit (tag node) "option" then
    let text := text node in
    if truthy text then ret [Option text] else ret []
  else if eq_lit (tag node) "label" then
    do children <- rec;
    match children with [] => ret [] | _ => ret [Label children] end
  else if eq_lit (tag node) "details" then
    do children <- rec;
    match children with [] => ret [] | _ => ret [Details children] end
  else if eq_lit (tag node) "summary" then
    do children <- rec;
    match children with [] => ret [] | _ => ret [Summary children] end
  else
    do children <- rec;
    match children with [] => ret [] | _ => ret children end.

(** The [for] loop: [elements] is the list built so far. *)
Definition loop (f : LexborNode → M (list Element))
    : list LexborNode → list Element → M (list Element) :=
  fix go (nodes : list LexborNode) (elements : list Element) :=
    match nodes with
    | [] => ret elements
    | node :: rest =>
        do new <- f node;
        go rest (elements ++ new)
    end.

Fixpoint parse_children (root : LexborNode) : M (list Element) :=
  match root with
  | Node _ _ _ nodes =>
      loop (λ node, visit (parse_children node) node) nodes []
  end.

Section Engine.

(** The HTML engine: [LexborHTMLParser(html)]. *)
Variable engine : string → LexborHTMLParser.

Definition parse (html : string) : M (list Element) :=
  let parser := engine html in
  match body parser with
  | None => ret []
  | Some body => parse_children body
  end.

End Engine.

(** ** Identifiers and shape of the output *)

(** The identifiers of an element tree, parent before descendants. *)
Fixpoint ids_pre (e : Element) : list Z :=
  match e with
  | Button i inner => i :: flat_map ids_pre inner
  | Anchor _ inner | Heading _ inner | Paragraph inner | Label inner
  | Select inner _ | Details inner | Summary inner => flat_map ids_pre inner
  | TextInput i _ | UrlInput i _ | CheckboxInput i _ | RadioInput i _ => [i]
  | Image _ _ | Text _ | Option _ => []
  end.

(** The identifiers of an element tree, descendants before parent. *)
Fixpoint ids_post (e : Element) : list Z :=
  match e with
  | Button i inner => flat_map ids_post inner ++ [i]
  | Anchor _ inner | Heading _ inner | Paragraph inner | Label inner
  | Select inner _ | Details inner | Summary inner => flat_map ids_post inner
  | TextInput i _ | UrlInput i _ | CheckboxInput i _ | RadioInput i _ => [i]
  | Image _ _ | Text _ | Option _ => []
  end.

Definition ids_preorder (es : list Element) : list Z := flat_map ids_pre es.
Definition ids_postorder (es : list Element) : list Z := flat_map ids_post es.

(** Truth value of a list: the empty list is falsy. *)
Definition truthy_list {A} (l : list A) : bool :=
  match l with [] => false | _ :: _ => true end.

(** No empty payload anywhere in the tree. *)
Fixpoint well_formed (e : Element) : bool :=
  match e with
  | Anchor href inner => truthy href && truthy_list inner && forallb well_formed inner
  | Button _ inner | Heading _ inner | Paragraph inner | Label inner
  | Select inner _ | Details inner | Summary inner =>
      truthy_list inner && forallb well_formed inner
  | Image src _ => truthy src
  | Text s | Option s => truthy s
  | TextInput _ _ | UrlInput _ _ | CheckboxInput _ _ | RadioInput _ _ => true
  end.

(** [spans a b es]: the elements [es] are well formed and carry, in the
    order [ids_postorder], exactly the identifiers [a], ..., [b - 1]. *)
Definition spans (a b : Z) (es : list Element) : Prop :=
  a ≤ b ∧ ids_postorder es = seqZ a (b - a) ∧ forallb well_formed es = true.

(** A method call that returns leaves the counter and its result related
    by [spans]. *)
Definition allocates (m : M (list Element)) : Prop :=
  ∀ self es self', m self = (Ok es, self') → spans (id self) (id self') es.

(** ** Example documents *)

Definition text_node (s : string) : LexborNode := Node (Some "-text") ∅ s [].

(** [<body><h2>Title</h2><p>Hi <a href="/x">link</a></p>
     <div><input type="checkbox" checked></div></body>] *)
Definition scenario_body : LexborNode :=
  Node (Some "body") ∅ "TitleHilink"
    [ Node (Some "h2") ∅ "Title" [text_node "Title"];
      Node (Some "p") ∅ "Hilink"
        [ text_node "Hi";
          Node (Some "a") {[ "href" := Some "/x" ]} "link" [text_node "link"] ];
      Node (Some "div") ∅ ""
        [ Node (Some "input") {[ "type" := Some "checkbox"; "checked" := None ]} "" [] ] ].

(** [<body><button><input></button></body>] *)
Definition button_input_body : LexborNode :=
  Node (Some "body") ∅ ""
    [ Node (Some "button") ∅ "" [ Node (Some "input") ∅ "" [] ] ].

(** [<h0>x</h0>] *)
Definition h0_node : LexborNode := Node (Some "h0") ∅ "x" [text_node "x"].

(** [<body><h0>x</h0></body>] *)
Definition h0_body : LexborNode := Node (Some "body") ∅ "x" [h0_node].

(** [<a><input></a>] *)
Definition bare_anchor : LexborNode :=
  Node (Some "a") ∅ "" [ Node (Some "input") ∅ "" [] ].

(** [<div><input></div>] *)
Definition div_input : LexborNode :=
  Node (Some "div") ∅ "" [ Node (Some "input") ∅ "" [] ].

(** [<input type="range">] *)
Definition range_input : LexborNode :=
  Node (Some "input") {[ "type" := Some "range" ]} "" [].

(** [<body><select><option>A</option><option></option></select></body>] *)
Definition select_body : LexborNode :=
  Node (Some "body") ∅ "A"
    [ Node (Some "select") ∅ "A"
        [ Node (Some "option") ∅ "A" [text_node "A"];
          Node (Some "option") ∅ "" [] ] ].

(** [<button></button>] *)
Definition empty_button : LexborNode := Node (Some "button") ∅ "" [].

(** The tag [h] followed by U+00B2 (superscript two). *)
Definition h_sup2 : string := String "h" (String (ascii_of_nat 178) EmptyString).

(** [<body><h²>x</h²></body>] *)
Definition h_sup2_body : LexborNode :=
  Node (Some "body") ∅ "x" [ Node (Some h_sup2) ∅ "x" [text_node "x"] ].

(** ** Induction on nodes *)

(** Induction on a node with the hypothesis for every child. *)
Section LexborNode_induction.

Variable P : LexborNode → Prop.
Hypothesis step : ∀ t a x nodes, Forall P nodes → P (Node t a x nodes).

Fixpoint LexborNode_forall_ind (n : LexborNode) : P n :=
  match n with
  | Node t a x nodes =>
      step t a x nodes
        ((fix children (l : list LexborNode) : Forall P l :=
            match l with
            | [] => List.Forall_nil P
            | c :: cs =>
                List.Forall_cons P c cs (LexborNode_forall_ind c) (children cs)
            end) nodes)
  end.

End LexborNode_induction.

(** ** Tag classes

    [recognized_tag] collects the guards of the branches of [visit] other
    than the last one; [wrapper_tag] those of the branches that emit an
    element around the classified children. *)

Definition recognized_tag (t : option string) : bool :=
  negb (truthy_opt t) || eq_lit t "-text" || eq_lit t "a" || eq_lit t "img"
  || eq_lit t "button" || heading_tag (default "" t) || eq_lit t "p"
  || eq_lit t "input" || eq_lit t "select" || eq_lit t "option"
  || eq_lit t "label" || eq_lit t "details" || eq_lit t "summary".

Definition wrapper_tag (t : option string) : bool :=
  truthy_opt t && negb (eq_lit t "-text")
  && (eq_lit t "a" || eq_lit t "button" || heading_tag (default "" t)
      || eq_lit t "p" || eq_lit t "select" || eq_lit t "label"
      || eq_lit t "details" || eq_lit t "summary").

(** The heading tags as the specification names them: [h1] to [h9]. *)
Definition spec_heading_tag (t : option string) : bool :=
  bool_decide (t ∈ [Some "h1"; Some "h2"; Some "h3"; Some "h4"; Some "h5";
                    Some "h6"; Some "h7"; Some "h8"; Some "h9"]).

(** The recognized tags as the specification names them. *)
Definition spec_recognized_tag (t : option string) : bool :=
  negb (truthy_opt t) || eq_lit t "-text" || eq_lit t "a" || eq_lit t "img"
  || eq_lit t "button" || spec_heading_tag t || eq_lit t "p"
  || eq_lit t "input" || eq_lit t "select" || eq_lit t "option"
  || eq_lit t "label" || eq_lit t "details" || eq_lit t "summary".

(** The boolean-attribute rule in the specification's words, on the result
    of looking the key up: absent, or present with a value. *)
Definition spec_coerce (v : option (option string)) : bool :=
  match v with
  | None => false
  | Some None => true
  | Some (Some s) => String.eqb s "true" || String.eqb s ""
  end.

(** [<body><h²>x</h²></body>] as a string of code points. *)
Definition h_sup2_html : string :=
  "<body><" +:+ h_sup2 +:+ ">x</" +:+ h_sup2 +:+ "></body>".

(** An engine that knows a few documents: the trees an HTML5 parser builds
    for them (a frameset document has no body; input without markup gets an
    empty body). *)
Definition toy_engine (html : string) : LexborHTMLParser :=
  if String.eqb html "<body><button><input></button></body>"
  then {| body := Some button_input_body |}
  else if String.eqb html h_sup2_html
  then {| body := Some h_sup2_body |}
  else if String.eqb html "<frameset></frameset>"
  then {| body := None |}
  else {| body := Some (Node (Some "body") ∅ "" []) |}.

(** ** Further notions used by the properties of the classifier *)

(** [shift k e]: the element [e] with [k] added to every identifier. *)
Fixpoint shift (k : Z) (e : Element) : Element :=
  match e with
  | Anchor href inner => Anchor href (map (shift k) inner)
  | Image src alt => Image src alt
  | Text content => Text content
  | Button i inner => Button (i + k) (map (shift k) inner)
  | Heading level inner => Heading level (map (shift k) inner)
  | Paragraph inner => Paragraph (map (shift k) inner)
  | TextInput i placeholder => TextInput (i + k) placeholder
  | UrlInput i placeholder => UrlInput (i + k) placeholder
  | CheckboxInput i checked => CheckboxInput (i + k) checked
  | RadioInput i checked => RadioInput (i + k) checked
  | Label inner => Label (map (shift k) inner)
  | Select inner multiple => Select (map (shift k) inner) multiple
  | Option text => Option text
  | Details inner => Details (map (shift k) inner)
  | Summary inner => Summary (map (shift k) inner)
  end.

(** The outcome of a call, moved [k] identifiers up. *)
Definition shift_run (k : Z) (r : Result (list Element) * Parser)
    : Result (list Element) * Parser :=
  match r with
  | (Ok es, self') => (Ok (map (shift k) es), {| id := id self' + k |})
  | (Raise e, self') => (Raise e, {| id := id self' + k |})
  end.

(** A call whose outcome moves with the counter it starts from. *)
Definition relocatable (m : M (list Element)) : Prop :=
  ∀ self k, m {| id := id self + k |} = shift_run k (m self).

(** A tag that passes the heading guard and whose tail [int] rejects. *)
Definition raising_tag (t : option string) : bool :=
  heading_tag (default "" t)
  && match int (slice_from_1 (default "" t)) with
     | Ok _ => false
     | Raise _ => true
     end.

(** No node below [n] has a [raising_tag]. *)
Fixpoint int_safe (n : LexborNode) : bool :=
  match n with
  | Node _ _ _ nodes =>
      forallb (λ c, negb (raising_tag (tag c)) && int_safe c) nodes
  end.

(** The tags whose branch calls [fetch_advance_id]. *)
Definition control_tag (t : option string) : bool :=
  eq_lit t "button" || eq_lit t "input".

Definition control_weight (n : LexborNode) : Z :=
  if control_tag (tag n) then 1 else 0.

(** The number of [button] and [input] nodes below [n]. *)
Fixpoint control_nodes (n : LexborNode) : Z :=
  match n with
  | Node _ _ _ nodes =>
      foldr (λ c acc, control_weight c + control_nodes c + acc) 0 nodes
  end.

(** A call that moves the counter forward by at most [n], whether it
    returns or raises. *)
Definition advances_at_most (n : Z) (m : M (list Element)) : Prop :=
  ∀ self r self', m self = (r, self') → id self ≤ id self' ≤ id self + n.

(** Every heading of the tree has a level in 0..9. *)
Fixpoint levels_ok (e : Element) : bool :=
  match e with
  | Heading level inner =>
      (0 <=? level) && (level <=? 9) && forallb levels_ok inner
  | Anchor _ inner | Button _ inner | Paragraph inner | Label inner
  | Select inner _ | Details inner | Summary inner => forallb levels_ok inner
  | Image _ _ | Text _ | Option _
  | TextInput _ _ | UrlInput _ _ | CheckboxInput _ _ | RadioInput _ _ => true
  end.

(** Every anchor of the tree has a non-empty [href] and every image a
    non-empty [src]. *)
Fixpoint sources_ok (e : Element) : bool :=
  match e with
  | Anchor href inner => truthy href && forallb sources_ok inner
  | Image src _ => truthy src
  | Button _ inner | Heading _ inner | Paragraph inner | Label inner
  | Select inner _ | Details inner | Summary inner => forallb sources_ok inner
  | Text _ | Option _
  | TextInput _ _ | UrlInput _ _ | CheckboxInput _ _ | RadioInput _ _ => true
  end.

(** [<body><input><button><input></button><input type="url"></body>] *)
Definition three_controls_body : LexborNode :=
  Node (Some "body") ∅ ""
    [ Node (Some "input") ∅ "" [];
      Node (Some "button") ∅ "" [ Node (Some "input") ∅ "" [] ];
      Node (Some "input") {[ "type" := Some "url" ]} "" [] ].

(** [<body><h²><input></h²></body>] *)
Definition h_sup2_input_body : LexborNode :=
  Node (Some "body") ∅ ""
    [ Node (Some h_sup2) ∅ "" [ Node (Some "input") ∅ "" [] ] ].

(** [<option>A<input></option>] *)
Definition option_input : LexborNode :=
  Node (Some "option") ∅ "A" [ text_node "A"; Node (Some "input") ∅ "" [] ].

(** [<a href="">x</a>] *)
Definition empty_href_anchor : LexborNode :=
  Node (Some "a") {[ "href" := Some "" ]} "x" [text_node "x"].

(** [<img src="/p.png" alt>] *)
Definition img_valueless_alt : LexborNode :=
  Node (Some "img") {[ "src" := Some "/p.png"; "alt" := None ]} "" [].

(** * Properties *)

Example scenario_run :
  parse_children scenario_body __init__
  = (Ok [ Heading 2 [Text "Title"];
          Paragraph [Text "Hi"; Anchor "/x" [Text "link"]];
          CheckboxInput 0 true ], {| id := 1 |}).
Proof. vm_compute. reflexivity. Qed.

Example button_input_run :
  parse_children button_input_body __init__
  = (Ok [Button 1 [TextInput 0 None]], {| id := 2 |}).
Proof. vm_compute. reflexivity. Qed.

Example select_run :
  parse_children select_body __init__
  = (Ok [Select [Option "A"] false], __init__).
Proof. vm_compute. reflexivity. Qed.

Example h0_run :
  parse_children h0_body __init__ = (Ok [Heading 0 [Text "x"]], {| id := 0 |}).
Proof. vm_compute. reflexivity. Qed.

Example h_sup2_run :
  parse_children h_sup2_body __init__ = (Raise ValueError, {| id := 0 |}).
Proof. vm_compute. reflexivity. Qed.


Lemma bind_Ok {A B} (m : M A) (k : A → M B) self b self' :
  bind m k self = (Ok b, self') →
  ∃ a mid, m self = (Ok a, mid) ∧ k a mid = (Ok b, self').
Proof.
  unfold bind. destruct (m self) as [[a|e] mid]; [eauto | discriminate].
Qed.

Lemma ret_Ok {A} (a b : A) self self' :
  ret a self = (Ok b, self') → b = a ∧ self' = self.
Proof. unfold ret. intros [= -> ->]. done. Qed.

Lemma fetch_advance_id_Ok self i self' :
  fetch_advance_id self = (Ok i, self') →
  i = id self ∧ self' = {| id := id self + 1 |}.
Proof. unfold fetch_advance_id. intros [= <- <-]. done. Qed.

Lemma lift_Ok {A} (r : Result A) self (a : A) self' :
  lift r self = (Ok a, self') → r = Ok a ∧ self' = self.
Proof. unfold lift. intros [= -> ->]. done. Qed.

(** Decompose a run that returned into the runs of its parts. *)
Ltac run_inv :=
  repeat match goal with
  | H : bind _ _ _ = (Ok _, _) |- _ =>
      let a := fresh "r" in let mid := fresh "mid" in let H1 := fresh "Hrun" in
      apply bind_Ok in H as (a & mid & H1 & H)
  | H : ret _ _ = (Ok _, _) |- _ => apply ret_Ok in H as [-> ->]
  | H : fetch_advance_id _ = (Ok _, _) |- _ =>
      apply fetch_advance_id_Ok in H as [-> ->]
  | H : lift _ _ = (Ok _, _) |- _ => apply lift_Ok in H as [H ->]
  end.

Lemma spans_nil a : spans a a [].
Proof.
  unfold spans. split; [lia|]. split; [|done].
  by rewrite Z.sub_diag, seqZ_nil.
Qed.

Lemma spans_app a b c es1 es2 :
  spans a b es1 → spans b c es2 → spans a c (es1 ++ es2).
Proof.
  unfold spans, ids_postorder. intros (Hab & H1 & W1) (Hbc & H2 & W2).
  split; [lia|]. split.
  - rewrite flat_map_app, H1, H2.
    replace (c - a) with ((b - a) + (c - b)) by lia.
    rewrite seqZ_app by lia. do 3 f_equal. lia.
  - rewrite forallb_app, W1, W2. done.
Qed.

Lemma spans_le a b es : spans a b es → a ≤ b.
Proof. by intros (? & _). Qed.

Lemma spans_empty a b : spans a b [] → b = a.
Proof.
  intros (Hab & H & _). simpl in H.
  destruct (decide (b = a)) as [|Hne]; [done|].
  rewrite seqZ_cons in H by lia. discriminate.
Qed.

(** An element without identifier of its own around [inner]. *)
Lemma spans_wrap a b inner e :
  spans a b inner →
  ids_post e = ids_postorder inner →
  well_formed e = forallb well_formed inner →
  spans a b [e].
Proof.
  unfold spans, ids_postorder. intros (Hab & H & W) He We.
  split; [done|]. simpl. rewrite app_nil_r, He, We, W. done.
Qed.

(** An element without identifier and without inner elements. *)
Lemma spans_leaf a e :
  ids_post e = [] → well_formed e = true → spans a a [e].
Proof.
  unfold spans, ids_postorder. intros He We. simpl.
  rewrite He, We, Z.sub_diag, seqZ_nil by lia. done.
Qed.

(** An element that takes the next identifier after [inner]. *)
Lemma spans_control a b inner e :
  spans a b inner →
  ids_post e = ids_postorder inner ++ [b] →
  well_formed e = forallb well_formed inner →
  spans a (b + 1) [e].
Proof.
  unfold spans, ids_postorder. intros (Hab & H & W) He We.
  split; [lia|]. simpl. rewrite app_nil_r, He, We, W, H.
  split; [|done].
  replace (b + 1 - a) with ((b - a) + 1) by lia.
  rewrite seqZ_app by lia. f_equal.
  replace (a + (b - a)) with b by lia.
  rewrite seqZ_cons, seqZ_nil by lia. done.
Qed.

Lemma visit_allocates rec node :
  allocates rec → allocates (visit rec node).
Proof.
  intros Hrec self es self' H. unfold visit in H.
  repeat first [progress run_inv | case_match];
    repeat match goal with
    | H : rec _ = (Ok _, _) |- _ => apply Hrec in H
    | H : negb (truthy _) = false |- _ => apply negb_false_iff in H
    end;
    try apply spans_nil; try done.
  all: try (apply spans_leaf; simpl; by rewrite ?andb_true_r).
  all: try (eapply spans_wrap;
            [eassumption | simpl; by rewrite ?app_nil_r
            | simpl; by repeat match goal with H : _ = true |- _ => rewrite H end]).
  all: try (eapply (spans_control _ _ []); [apply spans_nil | done | done]).
  all: try (eapply spans_control; [eassumption | simpl; by rewrite ?app_nil_r | done]).
Qed.

(** ** The loop *)

Lemma loop_acc f nodes elements self :
  loop f nodes elements self
  = match loop f nodes [] self with
    | (Ok es, self') => (Ok (elements ++ es), self')
    | (Raise e, self') => (Raise e, self')
    end.
Proof.
  revert elements self. induction nodes as [|node rest IH]; intros elements self.
  - simpl. unfold ret. by rewrite app_nil_r.
  - simpl. unfold bind. destruct (f node self) as [[new|e] mid]; [|done].
    rewrite (IH (elements ++ new)), (IH ([] ++ new)). simpl.
    destruct (loop f rest [] mid) as [[es|e] self']; [|done].
    by rewrite app_assoc.
Qed.

Lemma loop_app f l1 l2 elements self :
  loop f (l1 ++ l2) elements self
  = bind (loop f l1 elements) (loop f l2) self.
Proof.
  revert elements self. induction l1 as [|node rest IH]; intros elements self.
  - done.
  - simpl. unfold bind.
    destruct (f node self) as [[new|e] mid]; [|done].
    rewrite IH. done.
Qed.

Lemma parse_children_unfold root :
  parse_children root
  = loop (λ node, visit (parse_children node) node) (iter root) [].
Proof. by destruct root. Qed.

Lemma loop_allocates f nodes :
  Forall (λ node, allocates (f node)) nodes →
  ∀ elements self es self',
    loop f nodes elements self = (Ok es, self') →
    ∃ new, es = elements ++ new ∧ spans (id self) (id self') new.
Proof.
  induction 1 as [|node rest Hnode _ IH]; intros elements self es self' H.
  - simpl in H. run_inv. exists []. split; [by rewrite app_nil_r | apply spans_nil].
  - simpl in H. run_inv. apply Hnode in Hrun.
    apply IH in H as (new & -> & Hnew).
    exists (r ++ new). split; [by rewrite app_assoc | by eapply spans_app].
Qed.

Lemma parse_children_allocates root : allocates (parse_children root).
Proof.
  induction root as [t a x nodes IH] using LexborNode_forall_ind.
  intros self es self' H. simpl in H.
  apply loop_allocates in H as (new & -> & Hnew); [done|].
  eapply Forall_impl; [exact IH|]. intros node Hnode. by apply visit_allocates.
Qed.

Lemma parse_allocates engine html : allocates (parse engine html).
Proof.
  intros self es self' H. unfold parse in H.
  destruct (body (engine html)) as [b|].
  - by eapply parse_children_allocates.
  - run_inv. apply spans_nil.
Qed.

Lemma seqZ_sorted a n : StronglySorted Z.lt (seqZ a n).
Proof.
  remember (Z.to_nat n) as k eqn:Hk. revert a n Hk.
  induction k as [|k IH]; intros a n Hk.
  - rewrite seqZ_nil by lia. constructor.
  - rewrite seqZ_cons by lia. constructor.
    + apply IH. lia.
    + apply Forall_seqZ. lia.
Qed.

(** ** Identifier allocation *)

(** C1, as stated, fails: in [<body><button><input></button></body>] the
    button starts before the input, yet the input receives identifier 0 and
    the button identifier 1, so the identifiers read in document pre-order
    are not increasing. *)
Lemma preorder_ids_not_increasing :
  ∃ es self',
    parse_children button_input_body __init__ = (Ok es, self')
    ∧ ¬ StronglySorted Z.lt (ids_preorder es).
Proof.
  exists [Button 1 [TextInput 0 None]], {| id := 2 |}.
  split; [vm_compute; reflexivity|].
  unfold ids_preorder. simpl. intros Hsorted.
  apply StronglySorted_inv in Hsorted as [_ Hall].
  apply Forall_inv in Hall. lia.
Qed.

(** C1, amended: within one run of [parse_children] that returns, the
    identifiers carried by the emitted controls are pairwise distinct and
    are exactly the consecutive integers from the counter at entry up to
    the counter at exit.  They follow the document: for every child [node]
    of the classified root, the output is the elements of the children
    before [node], then those of [node], then those of the children after
    it, each group numbered from the counter the previous one left, so
    every identifier from an earlier child is smaller than every
    identifier from a later one; and a button takes its identifier after
    the controls nested in it, so its identifier is larger than theirs
    (document post-order). *)
Theorem ids_consecutive_in_postorder root self es self' :
  parse_children root self = (Ok es, self') →
  (id self ≤ id self'
   ∧ ids_postorder es = seqZ (id self) (id self' - id self)
   ∧ NoDup (ids_postorder es)
   ∧ StronglySorted Z.lt (ids_postorder es))
  ∧ (∀ before node after,
        iter root = before ++ node :: after →
        ∃ es_b es_n es_a m1 m2,
          es = es_b ++ es_n ++ es_a
          ∧ parse_children (Node (tag root) (attributes root) (text root) before)
              self = (Ok es_b, m1)
          ∧ visit (parse_children node) node m1 = (Ok es_n, m2)
          ∧ parse_children (Node (tag root) (attributes root) (text root) after)
              m2 = (Ok es_a, self')
          ∧ ids_postorder es_b = seqZ (id self) (id m1 - id self)
          ∧ ids_postorder es_n = seqZ (id m1) (id m2 - id m1)
          ∧ ids_postorder es_a = seqZ (id m2) (id self' - id m2)
          ∧ (∀ i j, i ∈ ids_postorder es_b → j ∈ ids_postorder es_n → i < j)
          ∧ (∀ j k, j ∈ ids_postorder es_n → k ∈ ids_postorder es_a → j < k)
          ∧ (∀ i k, i ∈ ids_postorder es_b → k ∈ ids_postorder es_a → i < k)
          ∧ (tag node = Some "button" →
             ∀ children mid,
               parse_children node m1 = (Ok children, mid) →
               children ≠ [] →
               es_n = [Button (id mid) children]
               ∧ ∀ i, i ∈ ids_postorder children → i < id mid)).
Proof.
  intros H. split.
  - apply parse_children_allocates in H as (Hle & Hids & _).
    rewrite Hids. split; [done|]. split; [done|].
    split; [apply NoDup_seqZ | apply seqZ_sorted].
  - intros before node after Hiter.
    destruct root as [t a x nodes]. simpl in Hiter. subst nodes. simpl in H.
    change (node :: after) with ([node] ++ after) in H.
    rewrite loop_app in H. apply bind_Ok in H as (es_b & m1 & Hb & H).
    rewrite loop_app in H. apply bind_Ok in H as (acc & m2 & Hn & Ha).
    simpl in Hn. run_inv. rename r into es_n, mid into m2, Hrun into Hn.
    rewrite loop_acc in Ha.
    destruct (loop _ after [] m2) as [[es_a|e] last] eqn:Hafter; [|done].
    injection Ha as <- <-.
    pose proof (parse_children_allocates (Node t a x before) _ _ _ Hb)
      as (Hle_b & Hids_b & _).
    pose proof (visit_allocates _ node (parse_children_allocates node) _ _ _ Hn)
      as (Hle_n & Hids_n & _).
    pose proof (parse_children_allocates (Node t a x after) _ _ _ Hafter)
      as (Hle_a & Hids_a & _).
    exists es_b, es_n, es_a, m1, m2. simpl.
    split; [by rewrite <- app_assoc|].
    do 6 (split; [done|]).
    rewrite Hids_b, Hids_n, Hids_a.
    split; [intros i j; rewrite !elem_of_seqZ; lia|].
    split; [intros j k; rewrite !elem_of_seqZ; lia|].
    split; [intros i k; rewrite !elem_of_seqZ; lia|].
    intros Htag children mid Hrun Hne.
    unfold visit in Hn. rewrite Htag in Hn. simpl in Hn.
    unfold bind at 1 in Hn. rewrite Hrun in Hn.
    destruct children as [|c cs]; [done|]. run_inv. split; [done|].
    apply parse_children_allocates in Hrun as (_ & Hids & _).
    intros i. rewrite Hids, elem_of_seqZ. lia.
Qed.

Lemma ids_consecutive_in_postorder_witness :
  parse_children three_controls_body __init__
  = (Ok [TextInput 0 None; Button 2 [TextInput 1 None]; UrlInput 3 None],
     {| id := 4 |})
  ∧ ids_postorder
      [TextInput 0 None; Button 2 [TextInput 1 None]; UrlInput 3 None]
    = seqZ 0 (4 - 0).
Proof.
  assert (Hrun : parse_children three_controls_body __init__
                 = (Ok [TextInput 0 None; Button 2 [TextInput 1 None];
                        UrlInput 3 None], {| id := 4 |}))
    by (vm_compute; reflexivity).
  split; [exact Hrun|].
  exact (proj1 (proj2 (proj1 (ids_consecutive_in_postorder _ _ _ _ Hrun)))).
Defined.

(** C10: a second call of [parse] on the same parser object starts from the
    counter the first call left: its identifiers are the consecutive
    integers from that counter on, every one of them greater than every
    identifier of the first call, and the counter has advanced by the
    number of identifiers the first call assigned. *)
Theorem second_parse_continues_ids engine html1 html2 self es1 mid es2 self' :
  parse engine html1 self = (Ok es1, mid) →
  parse engine html2 mid = (Ok es2, self') →
  id mid = id self + Z.of_nat (length (ids_postorder es1))
  ∧ ids_postorder es2 = seqZ (id mid) (id self' - id mid)
  ∧ (∀ i j, i ∈ ids_postorder es1 → j ∈ ids_postorder es2 → i < j).
Proof.
  intros H1 H2.
  apply parse_allocates in H1 as (Hle1 & Hids1 & _).
  apply parse_allocates in H2 as (Hle2 & Hids2 & _).
  split; [|split; [done|]].
  - rewrite Hids1, length_seqZ. lia.
  - intros i j. rewrite Hids1, Hids2, !elem_of_seqZ. lia.
Qed.

Lemma second_parse_continues_ids_witness :
  parse toy_engine "<body><button><input></button></body>" __init__
  = (Ok [Button 1 [TextInput 0 None]], {| id := 2 |})
  ∧ parse toy_engine "<body><button><input></button></body>" {| id := 2 |}
    = (Ok [Button 3 [TextInput 2 None]], {| id := 4 |})
  ∧ ids_postorder [Button 3 [TextInput 2 None]] = seqZ 2 (4 - 2).
Proof.
  assert (H1 : parse toy_engine "<body><button><input></button></body>" __init__
               = (Ok [Button 1 [TextInput 0 None]], {| id := 2 |}))
    by (vm_compute; reflexivity).
  assert (H2 : parse toy_engine "<body><button><input></button></body>" {| id := 2 |}
               = (Ok [Button 3 [TextInput 2 None]], {| id := 4 |}))
    by (vm_compute; reflexivity).
  split; [exact H1|]. split; [exact H2|].
  exact (proj1 (proj2 (second_parse_continues_ids _ _ _ _ _ _ _ _ H1 H2))).
Defined.

(** ** Documents without a body; exceptions *)

Lemma parse_without_body engine html self :
  body (engine html) = None → parse engine html self = (Ok [], self).
Proof. intros H. unfold parse. by rewrite H. Qed.

(** C8: without a body [parse] returns the empty list and leaves the
    counter alone; but this is not the only failure a caller can see: on
    [<body><h²>x</h²></body>] (tag [h] followed by U+00B2, which
    [isdigit] accepts and [int] rejects) [parse] raises [ValueError]. *)
Theorem parse_failure_modes :
  (∀ engine html self,
      body (engine html) = None → parse engine html self = (Ok [], self))
  ∧ body (toy_engine h_sup2_html) = Some h_sup2_body
  ∧ parse toy_engine h_sup2_html __init__ = (Raise ValueError, __init__).
Proof.
  split; [apply parse_without_body|].
  split; vm_compute; reflexivity.
Qed.

Lemma parse_failure_modes_witness :
  body (toy_engine "<frameset></frameset>") = None
  ∧ parse toy_engine "<frameset></frameset>" __init__ = (Ok [], __init__).
Proof.
  assert (H : body (toy_engine "<frameset></frameset>") = None) by reflexivity.
  split; [exact H|].
  exact (proj1 parse_failure_modes toy_engine _ __init__ H).
Defined.

(** ** Dispatch on the tag *)

Lemma eq_lit_true v lit : eq_lit v lit = true ↔ v = Some lit.
Proof.
  destruct v as [s|]; simpl; [|split; discriminate].
  rewrite String.eqb_eq. split; congruence.
Qed.

Lemma eq_lit_false v lit : eq_lit v lit = false ↔ v ≠ Some lit.
Proof.
  rewrite <- not_true_iff_false, eq_lit_true. done.
Qed.

Lemma flag_spec_coerce attrs key : flag attrs key = spec_coerce (attrs !! key).
Proof.
  unfold flag, contains, subscript, spec_coerce.
  destruct (attrs !! key) as [[s|]|]; [|done..].
  unfold eq_lit, truthy_opt.
  destruct (String.eqb s "true"); [done|]. by destruct s.
Qed.

(** C2: the flag computed for [checked] and [multiple] is false when the
    key is absent, true when the key is present with the value ["true"],
    with the empty string or without a value, and false when it is present
    with any other string; a checkbox, a radio button and a select with
    classified children carry that flag. *)
Theorem boolean_attribute_coercion rec node self :
  (∀ key,
      (attributes node !! key = None → flag (attributes node) key = false)
      ∧ (∀ v, attributes node !! key = Some v →
              v = Some "true" ∨ v = Some "" ∨ v = None →
              flag (attributes node) key = true)
      ∧ (∀ s, attributes node !! key = Some (Some s) →
              s ≠ "true" → s ≠ "" →
              flag (attributes node) key = false))
  ∧ (tag node = Some "input" →
     attributes node !! "type" = Some (Some "checkbox") →
     visit rec node self
     = (Ok [CheckboxInput (id self) (flag (attributes node) "checked")],
        {| id := id self + 1 |}))
  ∧ (tag node = Some "input" →
     attributes node !! "type" = Some (Some "radio") →
     visit rec node self
     = (Ok [RadioInput (id self) (flag (attributes node) "checked")],
        {| id := id self + 1 |}))
  ∧ (∀ children mid,
        tag node = Some "select" →
        rec self = (Ok children, mid) → children ≠ [] →
        visit rec node self
        = (Ok [Select children (flag (attributes node) "multiple")], mid)).
Proof.
  split; [|split; [|split]].
  - intros key. rewrite flag_spec_coerce. split; [|split].
    + by intros ->.
    + intros v -> [-> | [-> | ->]]; done.
    + intros s -> Htrue Hempty. simpl.
      apply String.eqb_neq in Htrue, Hempty. by rewrite Htrue, Hempty.
  - intros Htag Htype. unfold visit, get. by rewrite Htag, Htype.
  - intros Htag Htype. unfold visit, get. by rewrite Htag, Htype.
  - intros children mid Htag Hrec Hne. unfold visit. rewrite Htag. simpl.
    unfold bind. rewrite Hrec. by destruct children.
Qed.

Lemma boolean_attribute_coercion_witness :
  flag {[ "type" := Some "checkbox"; "checked" := Some "yes" ]} "checked" = false
  ∧ visit (ret [])
      (Node (Some "input") {[ "type" := Some "checkbox"; "checked" := None ]} "" [])
      __init__
    = (Ok [CheckboxInput 0 true], {| id := 1 |}).
Proof.
  split.
  - refine (proj2 (proj2 (proj1 (boolean_attribute_coercion (ret [])
      (Node (Some "input") {[ "type" := Some "checkbox"; "checked" := Some "yes" ]} "" [])
      __init__) "checked")) "yes" _ _ _); [vm_compute; reflexivity | done | done].
  - refine (proj1 (proj2 (boolean_attribute_coercion (ret [])
      (Node (Some "input") {[ "type" := Some "checkbox"; "checked" := None ]} "" [])
      __init__)) _ _); vm_compute; reflexivity.
Defined.

(** ** Headings *)

Lemma heading_tag_inv t :
  heading_tag t = true → ∃ d, t = String "h" (String d "") ∧ isdigit d = true.
Proof.
  unfold heading_tag.
  destruct t as [|c [|d [|e t]]]; try discriminate.
  simpl. intros H. apply andb_prop in H as [Hc Hd].
  apply Ascii.eqb_eq in Hc as ->. eauto.
Qed.

Lemma heading_tag_h d : heading_tag (String "h" (String d "")) = isdigit d.
Proof. reflexivity. Qed.

Lemma int_digit d :
  int (String d "") = if is_decimal d then Ok (digit_value d) else Raise ValueError.
Proof. unfold int, int_acc. by destruct (is_decimal d). Qed.

Lemma digit_value_range d : is_decimal d = true → 0 ≤ digit_value d ≤ 9.
Proof. unfold is_decimal, digit_value. lia. Qed.

(** C3, as stated, fails: the tag [h0] is none of [h1] to [h9], yet
    [<body><h0>x</h0></body>] yields a heading, and its level 0 is outside
    1..9. *)
Lemma heading_h0_counterexample :
  ∃ level inner self',
    spec_heading_tag (Some "h0") = false
    ∧ parse_children h0_body __init__ = (Ok [Heading level inner], self')
    ∧ ¬ (1 ≤ level ≤ 9).
Proof.
  exists 0, [Text "x"], __init__.
  split; [vm_compute; reflexivity|]. split; [vm_compute; reflexivity | lia].
Qed.

(** C3, amended: a node is classified as a heading exactly when its tag
    passes the guard of the heading branch: two characters, the first [h],
    the last a digit character ([h0] included).  When its children classify
    to a non-empty sequence and [int] accepts the digit, the node yields a
    heading whose level is [int] of that character; for [h0] to [h9] this
    is the value of the digit.  Conversely a heading among the elements
    produced for a node is either that node's own, and then the tag passes
    the guard, the level is [int] of its last character and lies in 0..9,
    or it comes from the children of a node with an unrecognized tag. *)
Theorem heading_classification rec node self children mid :
  rec self = (Ok children, mid) →
  (∀ level, heading_tag (default "" (tag node)) = true →
            int (slice_from_1 (default "" (tag node))) = Ok level →
            children ≠ [] →
            visit rec node self = (Ok [Heading level children], mid)
            ∧ 0 ≤ level ≤ 9)
  ∧ (∀ d, tag node = Some (String "h" (String d "")) →
          is_decimal d = true →
          heading_tag (default "" (tag node)) = true
          ∧ int (slice_from_1 (default "" (tag node))) = Ok (digit_value d))
  ∧ (∀ es self' level inner,
        visit rec node self = (Ok es, self') →
        Heading level inner ∈ es →
        (heading_tag (default "" (tag node)) = true
         ∧ int (slice_from_1 (default "" (tag node))) = Ok level
         ∧ 0 ≤ level ≤ 9
         ∧ inner = children ∧ es = [Heading level inner])
        ∨ (recognized_tag (tag node) = false ∧ es = children)).
Proof.
  intros Hrec. split; [|split].
  - intros level Hguard Hint Hne.
    destruct (tag node) as [t|] eqn:Htag; [|done]. simpl in *.
    apply heading_tag_inv in Hguard as (d & -> & Hd). simpl in Hint.
    rewrite int_digit in Hint.
    destruct (is_decimal d) eqn:Hdec; [|done]. injection Hint as <-.
    split; [|by apply digit_value_range].
    unfold visit. rewrite Htag. simpl. rewrite heading_tag_h, Hd.
    unfold bind at 1. rewrite Hrec. destruct children as [|c cs]; [done|].
    by rewrite int_digit, Hdec.
  - intros d -> Hdec. simpl. rewrite heading_tag_h, int_digit, Hdec.
    split; [|done]. unfold isdigit. by rewrite Hdec.
  - intros es self' level inner H Hin. unfold visit in H.
    repeat first [progress run_inv | case_match];
      repeat match goal with
      | H : rec _ = (Ok _, _) |- _ => rewrite Hrec in H
      end;
      simplify_eq;
      try (apply list_elem_of_singleton in Hin; try discriminate);
      try (by apply not_elem_of_nil in Hin).
    + left. injection Hin as -> ->.
      destruct (tag node) as [t|] eqn:Htag; [|done]. simpl in *.
      match goal with
      | H : heading_tag _ = true |- _ =>
          pose proof H as Hguard; apply heading_tag_inv in H as (d & -> & _)
      end.
      simpl in *.
      match goal with
      | H : int _ = Ok _ |- _ => pose proof H as Hint; rewrite int_digit in H
      end.
      destruct (is_decimal d) eqn:Hdec; [|done]. simplify_eq.
      pose proof (digit_value_range d Hdec). done.
    + right. split; [|done]. unfold recognized_tag.
      repeat match goal with H : _ = false |- _ => rewrite H end. done.
Qed.

Lemma heading_classification_witness :
  visit (ret [Text "Title"]) (Node (Some "h2") ∅ "Title" [text_node "Title"]) __init__
  = (Ok [Heading 2 [Text "Title"]], __init__).
Proof.
  refine (proj1 (proj1 (heading_classification (ret [Text "Title"])
    (Node (Some "h2") ∅ "Title" [text_node "Title"]) __init__ [Text "Title"] __init__ _)
    2 _ _ _)); [reflexivity | reflexivity | reflexivity | done].
Defined.

(** ** Anchors without [href] *)

(** Dropping or replacing one child of a node: what the loop does with the
    children before and after it is unchanged when the child's iteration
    behaves like the iterations of [middle]. *)
Lemma loop_replace f before node middle after elements self :
  (∀ acc s, loop f [node] acc s = loop f middle acc s) →
  loop f (before ++ node :: after) elements self
  = loop f (before ++ middle ++ after) elements self.
Proof.
  intros Hsame.
  change (node :: after) with ([node] ++ after).
  rewrite !loop_app. unfold bind.
  destruct (loop f before elements self) as [[es|e] mid]; [|done].
  rewrite !loop_app. unfold bind. by rewrite Hsame.
Qed.

(** C5: an anchor without [href] yields nothing and leaves the counter
    alone, whatever classifying its children would do (the recursive call
    is not made), and a document classifies as it does with that anchor and
    everything below it removed: same elements, same identifiers, same
    final counter. *)
Theorem anchor_without_href_skipped node :
  tag node = Some "a" →
  attributes node !! "href" = None →
  (∀ rec self, visit rec node self = (Ok [], self))
  ∧ (∀ t a x before after self,
        parse_children (Node t a x (before ++ node :: after)) self
        = parse_children (Node t a x (before ++ after)) self).
Proof.
  intros Htag Hhref.
  assert (Hvisit : ∀ rec self, visit rec node self = (Ok [], self)).
  { intros rec self. unfold visit, get. by rewrite Htag, Hhref. }
  split; [done|].
  intros t a x before after self. simpl.
  apply (loop_replace _ before node [] after).
  intros acc s. simpl. unfold bind. rewrite Hvisit. unfold ret.
  by rewrite app_nil_r.
Qed.

Lemma anchor_without_href_skipped_witness :
  visit (parse_children bare_anchor) bare_anchor __init__ = (Ok [], __init__)
  ∧ parse_children bare_anchor __init__ = (Ok [TextInput 0 None], {| id := 1 |}).
Proof.
  split.
  - refine (proj1 (anchor_without_href_skipped bare_anchor _ _) _ _);
      vm_compute; reflexivity.
  - vm_compute. reflexivity.
Defined.

(** ** Inputs *)

(** C6: for an [input] tag the type is ["text"] when the attribute is
    absent; ["text"], ["url"], ["checkbox"] and ["radio"] emit a
    [TextInput], [UrlInput], [CheckboxInput] and [RadioInput] carrying the
    counter, which advances by one; any other type (or a type attribute
    without value) returns no element, leaves the counter alone and raises
    no exception.  The children are never classified. *)
Theorem input_dispatch rec node self :
  tag node = Some "input" →
  (attributes node !! "type" = None ∨ attributes node !! "type" = Some (Some "text") →
   visit rec node self
   = (Ok [TextInput (id self) (get (attributes node) "placeholder" None)],
      {| id := id self + 1 |}))
  ∧ (attributes node !! "type" = Some (Some "url") →
     visit rec node self
     = (Ok [UrlInput (id self) (get (attributes node) "placeholder" None)],
        {| id := id self + 1 |}))
  ∧ (attributes node !! "type" = Some (Some "checkbox") →
     visit rec node self
     = (Ok [CheckboxInput (id self) (flag (attributes node) "checked")],
        {| id := id self + 1 |}))
  ∧ (attributes node !! "type" = Some (Some "radio") →
     visit rec node self
     = (Ok [RadioInput (id self) (flag (attributes node) "checked")],
        {| id := id self + 1 |}))
  ∧ (∀ v, attributes node !! "type" = Some v →
          v ≠ Some "text" → v ≠ Some "url" →
          v ≠ Some "checkbox" → v ≠ Some "radio" →
          visit rec node self = (Ok [], self)).
Proof.
  intros Htag. unfold visit, get. rewrite Htag. simpl.
  repeat split.
  - by intros [-> | ->].
  - by intros ->.
  - by intros ->.
  - by intros ->.
  - intros v -> Htext Hurl Hcheckbox Hradio.
    apply eq_lit_false in Htext, Hurl, Hcheckbox, Hradio.
    by rewrite Htext, Hurl, Hcheckbox, Hradio.
Qed.

Lemma input_dispatch_witness :
  visit (parse_children range_input) range_input __init__ = (Ok [], __init__).
Proof.
  refine (proj2 (proj2 (proj2 (proj2
    (input_dispatch (parse_children range_input) range_input __init__ _))))
    (Some "range") _ _ _ _ _); try (vm_compute; reflexivity); discriminate.
Defined.

(** ** Unrecognized tags *)

(** C7, as stated, fails: [h0] is not in the set the claim lists (it has
    [h1] to [h9]), yet the node [<h0>x</h0>] is not transparent: its
    children classify to [[Text "x"]] and the node yields a heading around
    them. *)
Lemma h0_not_transparent :
  spec_recognized_tag (tag h0_node) = false
  ∧ parse_children h0_node __init__ = (Ok [Text "x"], __init__)
  ∧ visit (parse_children h0_node) h0_node __init__
    = (Ok [Heading 0 [Text "x"]], __init__).
Proof. repeat split; vm_compute; reflexivity. Qed.

(** C7, amended: for every tag outside the recognized set (text, [a],
    [img], [button], [h] followed by a digit, [p], [input], [select],
    [option], [label], [details], [summary]) the iteration for the node is
    the classification of its children, nothing added or removed; and a
    document classifies as it does with the node replaced by its children
    in the same position. *)
Theorem unrecognized_tag_transparent node :
  recognized_tag (tag node) = false →
  (∀ rec self, visit rec node self = rec self)
  ∧ (∀ t a x before after self,
        parse_children (Node t a x (before ++ node :: after)) self
        = parse_children (Node t a x (before ++ iter node ++ after)) self).
Proof.
  intros Hun.
  assert (Hvisit : ∀ rec self, visit rec node self = rec self).
  { intros rec self. unfold recognized_tag in Hun.
    repeat match goal with
    | H : _ || _ = false |- _ => apply orb_false_iff in H as [H ?]
    end.
    unfold visit.
    repeat match goal with H : _ = false |- _ => rewrite H end.
    simpl. unfold bind. destruct (rec self) as [[[|e es]|e] mid]; done. }
  split; [done|].
  intros t a x before after self. simpl.
  apply loop_replace. intros acc s. simpl. unfold bind at 1.
  rewrite Hvisit, parse_children_unfold.
  rewrite (loop_acc _ (iter node) acc).
  destruct (loop _ (iter node) [] s) as [[es|e] mid]; [|done].
  done.
Qed.

Lemma unrecognized_tag_transparent_witness :
  visit (parse_children div_input) div_input __init__
  = parse_children div_input __init__.
Proof.
  refine (proj1 (unrecognized_tag_transparent div_input _) _ _).
  vm_compute. reflexivity.
Defined.

(** ** Empty wrappers *)

Lemma Parser_eq (p q : Parser) : id p = id q → p = q.
Proof. destruct p, q. simpl. by intros ->. Qed.

(** C4: when the children of an anchor, button, heading, paragraph, label,
    details, summary or select node classify to the empty sequence, the
    iteration for the node appends nothing and the counter is the one
    before the node; and in every result of [parse_children] no [inner] is
    empty and no [Text] or [Option] has empty text, at any depth. *)
Theorem empty_wrappers_omitted :
  (∀ node self self',
      wrapper_tag (tag node) = true →
      parse_children node self = (Ok [], self') →
      visit (parse_children node) node self = (Ok [], self))
  ∧ (∀ root self es self',
        parse_children root self = (Ok es, self') →
        forallb well_formed es = true).
Proof.
  split.
  - intros node self self' Hwrap Hrun.
    assert (self' = self) as ->.
    { apply Parser_eq. apply parse_children_allocates in Hrun.
      by apply spans_empty in Hrun. }
    unfold wrapper_tag in Hwrap.
    apply andb_prop in Hwrap as [Hwrap Htags].
    apply andb_prop in Hwrap as [Htruthy Htext].
    apply negb_true_iff in Htext.
    unfold visit. rewrite Htruthy, Htext. simpl.
    repeat case_match; try done;
      try (unfold bind; by rewrite Hrun).
    all: repeat match goal with
         | H : eq_lit _ _ = true |- _ => apply eq_lit_true in H
         end;
         simplify_eq.
    all: try (by match goal with
              | H : tag _ = Some _ |- _ => rewrite H in Htags
              end).
    all: repeat match goal with
         | H : _ = false |- _ => rewrite H in Htags
         end; done.
  - intros root self es self' Hrun.
    by apply parse_children_allocates in Hrun as (_ & _ & Hwf).
Qed.

Lemma empty_wrappers_omitted_witness :
  visit (parse_children empty_button) empty_button __init__ = (Ok [], __init__)
  ∧ forallb well_formed [Button 1 [TextInput 0 None]] = true.
Proof.
  split.
  - refine (proj1 empty_wrappers_omitted empty_button __init__ __init__ _ _);
      vm_compute; reflexivity.
  - refine (proj2 empty_wrappers_omitted button_input_body __init__ _ {| id := 2 |} _).
    vm_compute. reflexivity.
Defined.

(** * Further properties of the classifier *)

(** ** The counter on every outcome *)

Lemma visit_advances n rec node :
  advances_at_most n rec →
  advances_at_most (control_weight node + n) (visit rec node).
Proof.
  intros Hrec self r self' H.
  destruct (rec self) as [rr mid] eqn:Hr. pose proof (Hrec _ _ _ Hr) as Hb.
  unfold control_weight, control_tag.
  unfold visit, bind, ret, lift, fetch_advance_id in H.
  repeat case_match; simplify_eq; simpl in *; lia.
Qed.

Lemma loop_advances f (w : LexborNode → Z) nodes :
  Forall (λ c, advances_at_most (w c) (f c)) nodes →
  ∀ elements, advances_at_most (foldr (λ c acc, w c + acc) 0 nodes)
                               (loop f nodes elements).
Proof.
  induction 1 as [|c rest Hc _ IH]; intros elements self r self' H.
  - simpl in *. unfold ret in H. simplify_eq. lia.
  - simpl in *. unfold bind in H.
    destruct (f c self) as [[new|e] mid] eqn:Hf; apply Hc in Hf.
    + apply IH in H. lia.
    + simplify_eq.
      assert (0 ≤ foldr (λ c acc, w c + acc) 0 rest); [|lia].
      destruct (loop f rest [] self') as [r' s'] eqn:Hl. apply IH in Hl. lia.
Qed.

Lemma parse_children_advances root :
  advances_at_most (control_nodes root) (parse_children root).
Proof.
  induction root as [t a x nodes IH] using LexborNode_forall_ind.
  simpl.
  apply (loop_advances _ (λ c, control_weight c + control_nodes c)).
  eapply Forall_impl; [exact IH|]. intros c Hc. by apply visit_advances.
Qed.

(** X1: [parse_children] never moves the counter backwards, whether it
    returns or raises. *)
Theorem counter_never_decreases root self r self' :
  parse_children root self = (r, self') → id self ≤ id self'.
Proof. intros H. apply parse_children_advances in H. lia. Qed.

Lemma counter_never_decreases_witness :
  parse_children h_sup2_input_body __init__ = (Raise ValueError, {| id := 1 |})
  ∧ id __init__ ≤ id {| id := 1 |}.
Proof.
  assert (H : parse_children h_sup2_input_body __init__
              = (Raise ValueError, {| id := 1 |})) by (vm_compute; reflexivity).
  split; [exact H|]. exact (counter_never_decreases _ _ _ _ H).
Defined.

(** X2: [parse_children] consumes at most as many identifiers as there are
    [button] and [input] nodes below the root, whether it returns or
    raises; in particular a tree without such nodes leaves the counter
    where it was. *)
Theorem ids_bounded_by_control_nodes root self r self' :
  parse_children root self = (r, self') →
  id self' - id self ≤ control_nodes root
  ∧ (control_nodes root = 0 → self' = self).
Proof.
  intros H. apply parse_children_advances in H. split; [lia|].
  intros Hzero. destruct self, self'. simpl in *. f_equal. lia.
Qed.

Lemma ids_bounded_by_control_nodes_witness :
  parse_children select_body {| id := 5 |}
  = (Ok [Select [Option "A"] false], {| id := 5 |})
  ∧ id {| id := 5 |} - id {| id := 5 |} ≤ control_nodes select_body.
Proof.
  assert (H : parse_children select_body {| id := 5 |}
              = (Ok [Select [Option "A"] false], {| id := 5 |}))
    by (vm_compute; reflexivity).
  split; [exact H|]. exact (proj1 (ids_bounded_by_control_nodes _ _ _ _ H)).
Defined.

(** ** When the classifier returns *)

Lemma raising_tag_false_int t :
  raising_tag t = false →
  heading_tag (default "" t) = true →
  ∃ level, int (slice_from_1 (default "" t)) = Ok level.
Proof.
  unfold raising_tag. intros H Hh. rewrite Hh in H. simpl in H.
  destruct (int _) as [level|e]; [eauto | discriminate].
Qed.

Lemma visit_returns rec node :
  raising_tag (tag node) = false →
  (∀ s, ∃ es s', rec s = (Ok es, s')) →
  ∀ s, ∃ es s', visit rec node s = (Ok es, s').
Proof.
  intros Hsafe Hrec s. destruct (Hrec s) as (children & mid & Hr).
  unfold visit.
  repeat case_match; unfold bind, ret, fetch_advance_id;
    rewrite ?Hr; try (destruct children; by eauto); eauto.
  destruct children as [|c cs]; [by eauto|].
  match goal with
  | H : heading_tag _ = true |- _ =>
      destruct (raising_tag_false_int _ Hsafe H) as (level & ->)
  end.
  unfold lift. eauto.
Qed.

Lemma loop_returns f nodes :
  Forall (λ c, ∀ s, ∃ es s', f c s = (Ok es, s')) nodes →
  ∀ elements s, ∃ es s', loop f nodes elements s = (Ok es, s').
Proof.
  induction 1 as [|c rest Hc _ IH]; intros elements s; simpl.
  - unfold ret. eauto.
  - unfold bind. destruct (Hc s) as (new & mid & ->). apply IH.
Qed.

(** X3: on a tree in which no node has a tag that passes the heading guard
    and is rejected by [int] (the letter h followed by a digit that is not
    decimal), [parse_children] raises no [ValueError]. *)
Theorem parse_children_no_ValueError root self :
  int_safe root = true →
  ∀ self', parse_children root self ≠ (Raise ValueError, self').
Proof.
  intros Hsafe self' Hraise.
  assert (Hok : ∃ es last, parse_children root self = (Ok es, last)).
  { clear Hraise. revert self Hsafe.
    induction root as [t a x nodes IH] using LexborNode_forall_ind.
    intros self Hsafe. simpl in *. apply loop_returns.
    apply Is_true_true, forallb_True in Hsafe.
    induction IH as [|c rest Hc _ IHrest]; [constructor|].
    apply Forall_cons in Hsafe as [Hhead Hrest].
    apply Is_true_true, andb_prop in Hhead as [Htag Hbelow].
    apply negb_true_iff in Htag.
    constructor; [|by apply IHrest].
    apply visit_returns; [done|]. intros s. by apply Hc. }
  destruct Hok as (es & last & Hok). rewrite Hok in Hraise. discriminate.
Qed.

Lemma parse_children_no_ValueError_witness :
  int_safe scenario_body = true
  ∧ parse_children scenario_body __init__ ≠ (Raise ValueError, __init__).
Proof.
  assert (Hsafe : int_safe scenario_body = true) by (vm_compute; reflexivity).
  split; [exact Hsafe|].
  exact (parse_children_no_ValueError scenario_body __init__ Hsafe __init__).
Defined.

(** X4: a node whose tag passes the heading guard and is rejected by [int]
    raises [ValueError] exactly when its children classify to a non-empty
    sequence; the identifiers its children consumed are not given back (the
    counter stays where the children left it).  With no classified children
    the node is skipped without an exception. *)
Theorem raising_heading rec node self children mid :
  raising_tag (tag node) = true →
  rec self = (Ok children, mid) →
  visit rec node self
  = match children with
    | [] => (Ok [], mid)
    | _ :: _ => (Raise ValueError, mid)
    end.
Proof.
  intros Hraise Hrec. unfold raising_tag in Hraise.
  apply andb_prop in Hraise as [Hh Hint].
  destruct (tag node) as [t|] eqn:Htag; [|done]. simpl in *.
  apply heading_tag_inv in Hh as (d & -> & Hd).
  unfold visit. rewrite Htag. simpl. rewrite heading_tag_h, Hd.
  unfold bind at 1. rewrite Hrec. destruct children as [|c cs]; [done|].
  simpl in Hint. unfold bind, lift.
  destruct (int (String d "")) as [level|[]]; done.
Qed.

Lemma raising_heading_witness :
  visit (parse_children (Node (Some h_sup2) ∅ "" [ Node (Some "input") ∅ "" [] ]))
        (Node (Some h_sup2) ∅ "" [ Node (Some "input") ∅ "" [] ]) __init__
  = (Raise ValueError, {| id := 1 |}).
Proof.
  refine (raising_heading _ _ __init__ [TextInput 0 None] {| id := 1 |} _ _);
    vm_compute; reflexivity.
Defined.

(** X5: a [ValueError] out of one iteration has one of two origins: the
    classification of the node's children raised it, or the node has a tag
    that passes the heading guard and is rejected by [int] and its children
    classified to a non-empty sequence.  In both cases the counter is the
    one the children left. *)
Theorem ValueError_origin rec node self self' :
  visit rec node self = (Raise ValueError, self') →
  rec self = (Raise ValueError, self')
  ∨ (raising_tag (tag node) = true
     ∧ ∃ children, rec self = (Ok children, self') ∧ children ≠ []).
Proof.
  intros H. unfold visit in H.
  destruct (rec self) as [[children|[]] mid] eqn:Hr;
    unfold bind, ret, lift, fetch_advance_id in H;
    repeat case_match; simplify_eq; try (by left).
  right. split; [|by eauto].
  unfold raising_tag.
  repeat match goal with H : _ = _ |- _ => rewrite H end. done.
Qed.

Lemma ValueError_origin_witness :
  visit (ret [Text "x"]) (Node (Some h_sup2) ∅ "x" [text_node "x"]) __init__
  = (Raise ValueError, __init__)
  ∧ (ret [Text "x"] __init__ = (Raise ValueError, __init__)
     ∨ (raising_tag (Some h_sup2) = true
        ∧ ∃ children,
            ret [Text "x"] __init__ = (Ok children, __init__) ∧ children ≠ [])).
Proof.
  assert (H : visit (ret [Text "x"]) (Node (Some h_sup2) ∅ "x" [text_node "x"])
                __init__ = (Raise ValueError, __init__))
    by (vm_compute; reflexivity).
  split; [exact H|]. exact (ValueError_origin _ _ _ _ H).
Defined.

(** ** Relocation *)

Lemma visit_relocatable rec node :
  relocatable rec → relocatable (visit rec node).
Proof.
  intros Hrec self k. unfold visit.
  repeat case_match; unfold bind, ret, fetch_advance_id; rewrite ?Hrec;
    try done;
    destruct (rec self) as [[[|c cs]|e] mid]; simpl; try done;
    try (by rewrite Z.add_shuffle0);
    unfold lift; by destruct (int _).
Qed.

Lemma loop_relocatable f nodes :
  Forall (λ c, relocatable (f c)) nodes →
  ∀ elements self k,
    loop f nodes (map (shift k) elements) {| id := id self + k |}
    = shift_run k (loop f nodes elements self).
Proof.
  induction 1 as [|c rest Hc _ IH]; intros elements self k; simpl.
  - done.
  - unfold bind. rewrite (Hc self k).
    destruct (f c self) as [[new|e] mid]; simpl; [|done].
    rewrite <- map_app. apply IH.
Qed.



(** X6: the result of [parse_children] moves with the counter: started [k]
    identifiers higher it gives the same elements with [k] added to every
    identifier, the same exception if any, and a final counter [k] higher.
    So a parser that was used before classifies a document exactly as a
    fresh one does, up to the offset of its counter. *)
Theorem parse_children_relocatable root self k :
  parse_children root {| id := id self + k |}
  = shift_run k (parse_children root self).
Proof.
  revert self k.
  induction root as [t a x nodes IH] using LexborNode_forall_ind.
  intros self k. simpl.
  apply (loop_relocatable _ nodes) with (elements := []).
  eapply Forall_impl; [exact IH|]. intros c Hc. by apply visit_relocatable.
Qed.

(** ** Siblings *)

(** X7: the children of a node are classified left to right and the
    results concatenated: classifying [l1 ++ l2] is classifying [l1], then
    [l2] from the counter [l1] left, and appending; if [l1] raises, [l2] is
    not classified.  The tag, attributes and text of the root itself play
    no part. *)
Theorem parse_children_app t a x t1 a1 x1 t2 a2 x2 l1 l2 self :
  parse_children (Node t a x (l1 ++ l2)) self
  = (do es1 <- parse_children (Node t1 a1 x1 l1);
     do es2 <- parse_children (Node t2 a2 x2 l2);
     ret (es1 ++ es2)) self.
Proof.
  simpl. rewrite loop_app. unfold bind.
  destruct (loop _ l1 [] self) as [[es1|e] mid]; [|done].
  rewrite loop_acc.
  by destruct (loop _ l2 [] mid) as [[es2|e] self'].
Qed.

(** ** Heading levels *)

Lemma visit_levels rec node :
  (∀ s es s', rec s = (Ok es, s') → forallb levels_ok es = true) →
  ∀ s es s', visit rec node s = (Ok es, s') → forallb levels_ok es = true.
Proof.
  intros Hrec s es s' H. unfold visit in H.
  repeat first [progress run_inv | case_match];
    repeat match goal with
    | H : rec _ = (Ok _, _) |- _ => apply Hrec in H
    end;
    simpl in *; rewrite ?andb_true_r; try done.
  destruct (tag node) as [t|]; [|done]. simpl in *.
  match goal with
  | H : heading_tag _ = true |- _ => apply heading_tag_inv in H as (d & -> & _)
  end.
  simpl in *. rewrite int_digit in *.
  destruct (is_decimal d) eqn:Hdec; [|done]. simplify_eq.
  pose proof (digit_value_range d Hdec).
  apply andb_true_intro. split; [|done].
  apply andb_true_intro. split; lia.
Qed.

Lemma loop_levels f nodes :
  Forall (λ c, ∀ s es s', f c s = (Ok es, s') → forallb levels_ok es = true)
         nodes →
  ∀ elements s es s',
    forallb levels_ok elements = true →
    loop f nodes elements s = (Ok es, s') →
    forallb levels_ok es = true.
Proof.
  induction 1 as [|c rest Hc _ IH]; intros elements s es s' Hacc H; simpl in H.
  - by run_inv.
  - run_inv. apply Hc in Hrun. eapply IH; [|exact H].
    by rewrite forallb_app, Hacc, Hrun.
Qed.

(** X8: every heading in a result of [parse_children], at any depth, has a
    level between 0 and 9. *)
Theorem heading_levels_in_range root self es self' :
  parse_children root self = (Ok es, self') →
  forallb levels_ok es = true.
Proof.
  revert self es self'.
  induction root as [t a x nodes IH] using LexborNode_forall_ind.
  intros self es self' H. simpl in H.
  refine (loop_levels _ nodes _ [] self es self' eq_refl H).
  eapply Forall_impl; [exact IH|]. intros c Hc. by apply visit_levels.
Qed.

Lemma heading_levels_in_range_witness :
  parse_children h0_body __init__ = (Ok [Heading 0 [Text "x"]], __init__)
  ∧ forallb levels_ok [Heading 0 [Text "x"]] = true.
Proof.
  assert (H : parse_children h0_body __init__
              = (Ok [Heading 0 [Text "x"]], __init__))
    by (vm_compute; reflexivity).
  split; [exact H|]. exact (heading_levels_in_range _ _ _ _ H).
Defined.

(** ** The remaining branches *)

(** X9: an anchor whose [href] is present but empty or without a value is
    skipped like one without [href], without classifying its children; an
    anchor with a non-empty [href] yields [Anchor] around its classified
    children when there are any, takes no identifier of its own, and passes
    an exception of its children on. *)
Theorem anchor_rule rec node self :
  tag node = Some "a" →
  (attributes node !! "href" = Some None ∨ attributes node !! "href" = Some (Some "") →
   visit rec node self = (Ok [], self))
  ∧ (∀ href, attributes node !! "href" = Some (Some href) → href ≠ "" →
       visit rec node self
       = match rec self with
         | (Ok [], mid) => (Ok [], mid)
         | (Ok children, mid) => (Ok [Anchor href children], mid)
         | (Raise e, mid) => (Raise e, mid)
         end).
Proof.
  intros Htag. unfold visit, get. rewrite Htag. simpl. split.
  - by intros [-> | ->].
  - intros href -> Hne. destruct href as [|c href]; [done|]. simpl.
    unfold bind. by destruct (rec self) as [[[|e es]|e] mid].
Qed.

Lemma anchor_rule_witness :
  visit (parse_children empty_href_anchor) empty_href_anchor __init__
  = (Ok [], __init__)
  ∧ parse_children empty_href_anchor __init__ = (Ok [Text "x"], __init__).
Proof.
  split.
  - refine (proj1 (anchor_rule _ empty_href_anchor __init__ _) _).
    + reflexivity.
    + right. vm_compute. reflexivity.
  - vm_compute. reflexivity.
Defined.

(** X10: an image with a non-empty [src] yields one [Image] whose [alt] is
    the attribute as found ([None] when absent or without a value, the
    string otherwise, also when empty); an image whose [src] is absent,
    without value or empty yields nothing.  Either way the children are not
    classified and the counter is left alone. *)
Theorem image_rule rec node self :
  tag node = Some "img" →
  (∀ src, attributes node !! "src" = Some (Some src) → src ≠ "" →
     visit rec node self
     = (Ok [Image src (default None (attributes node !! "alt"))], self))
  ∧ (attributes node !! "src" = None ∨ attributes node !! "src" = Some None
     ∨ attributes node !! "src" = Some (Some "") →
     visit rec node self = (Ok [], self)).
Proof.
  intros Htag. unfold visit, get. rewrite Htag. simpl. split.
  - intros src -> Hne. destruct src as [|c src]; [done|]. simpl.
    by destruct (attributes node !! "alt").
  - by intros [-> | [-> | ->]].
Qed.

Lemma image_rule_witness :
  visit (ret []) img_valueless_alt __init__
  = (Ok [Image "/p.png" None], __init__).
Proof.
  refine (proj1 (image_rule (ret []) img_valueless_alt __init__ _) "/p.png" _ _).
  - reflexivity.
  - vm_compute. reflexivity.
  - discriminate.
Defined.

(** X11: a text node (no tag, empty tag or the tag [-text]) and an
    [option] yield their stripped text as one [Text], respectively
    [Option], when it is non-empty and nothing otherwise; their children
    are not classified, so nothing below them is emitted or numbered. *)
Theorem text_and_option_rule rec node self :
  (tag node = None ∨ tag node = Some "" ∨ tag node = Some "-text" →
   visit rec node self
   = (Ok (if truthy (text node) then [Text (text node)] else []), self))
  ∧ (tag node = Some "option" →
     visit rec node self
     = (Ok (if truthy (text node) then [Option (text node)] else []), self)).
Proof.
  unfold visit. split.
  - intros [-> | [-> | ->]]; simpl; by destruct (truthy (text node)).
  - intros ->. simpl. by destruct (truthy (text node)).
Qed.

Lemma text_and_option_rule_witness :
  visit (parse_children option_input) option_input __init__
  = (Ok [Option "A"], __init__)
  ∧ parse_children option_input __init__
    = (Ok [Text "A"; TextInput 0 None], {| id := 1 |}).
Proof.
  split.
  - refine (proj2 (text_and_option_rule _ option_input __init__) _). reflexivity.
  - vm_compute. reflexivity.
Defined.

(** X12: a button with classified children takes the counter its children
    left as its identifier and advances it by one; that identifier is the
    counter at entry plus the number of controls inside the button, and
    every identifier inside is smaller. *)
Theorem button_id_after_children node self children mid :
  tag node = Some "button" →
  parse_children node self = (Ok children, mid) →
  children ≠ [] →
  visit (parse_children node) node self
  = (Ok [Button (id mid) children], {| id := id mid + 1 |})
  ∧ id mid = id self + Z.of_nat (length (ids_postorder children))
  ∧ (∀ i, i ∈ ids_postorder children → id self ≤ i < id mid).
Proof.
  intros Htag Hrun Hne. split.
  - unfold visit. rewrite Htag. simpl. unfold bind at 1. rewrite Hrun.
    by destruct children.
  - apply parse_children_allocates in Hrun as (Hle & Hids & _).
    rewrite Hids, length_seqZ. split; [lia|].
    intros i. rewrite elem_of_seqZ. lia.
Qed.

Lemma button_id_after_children_witness :
  visit (parse_children (Node (Some "button") ∅ "" [ Node (Some "input") ∅ "" [] ]))
        (Node (Some "button") ∅ "" [ Node (Some "input") ∅ "" [] ]) __init__
  = (Ok [Button 1 [TextInput 0 None]], {| id := 2 |}).
Proof.
  refine (proj1 (button_id_after_children
    (Node (Some "button") ∅ "" [ Node (Some "input") ∅ "" [] ])
    __init__ [TextInput 0 None] {| id := 1 |} _ _ _)).
  - reflexivity.
  - vm_compute. reflexivity.
  - discriminate.
Defined.

(** X13: a paragraph, label, details or summary node whose children
    classify to a non-empty sequence yields the corresponding element
    around exactly that sequence and leaves the counter where the children
    left it: these elements take no identifier. *)
Theorem plain_wrappers rec node self children mid :
  rec self = (Ok children, mid) →
  children ≠ [] →
  (tag node = Some "p" →
   visit rec node self = (Ok [Paragraph children], mid))
  ∧ (tag node = Some "label" →
     visit rec node self = (Ok [Label children], mid))
  ∧ (tag node = Some "details" →
     visit rec node self = (Ok [Details children], mid))
  ∧ (tag node = Some "summary" →
     visit rec node self = (Ok [Summary children], mid)).
Proof.
  intros Hrec Hne. unfold visit.
  repeat split; intros ->; simpl; unfold bind; rewrite Hrec;
    by destruct children.
Qed.

Lemma plain_wrappers_witness :
  visit (ret [Text "Hi"]) (Node (Some "p") ∅ "Hi" [text_node "Hi"]) __init__
  = (Ok [Paragraph [Text "Hi"]], __init__).
Proof.
  refine (proj1 (plain_wrappers (ret [Text "Hi"])
    (Node (Some "p") ∅ "Hi" [text_node "Hi"]) __init__ [Text "Hi"] __init__ _ _) _).
  - reflexivity.
  - discriminate.
  - reflexivity.
Defined.

(** X14: only the attributes [href], [src], [alt], [type], [placeholder],
    [checked] and [multiple] are read: setting any other attribute of a
    node to any value changes nothing in what the node yields. *)
Theorem other_attributes_ignored rec t a x nodes key v self :
  key ∉ ["href"; "src"; "alt"; "type"; "placeholder"; "checked"; "multiple"] →
  visit rec (Node t (<[key := v]> a) x nodes) self
  = visit rec (Node t a x nodes) self.
Proof.
  intros Hkey. rewrite !not_elem_of_cons in Hkey.
  destruct Hkey as (? & ? & ? & ? & ? & ? & ? & _).
  unfold visit, get, flag, contains, subscript. simpl.
  by rewrite !lookup_insert_ne.
Qed.

Lemma other_attributes_ignored_witness :
  visit (ret []) (Node (Some "input") (<[ "class" := Some "big" ]> ∅) "" []) __init__
  = visit (ret []) (Node (Some "input") ∅ "" []) __init__.
Proof.
  apply other_attributes_ignored.
  rewrite !not_elem_of_cons. repeat split; try discriminate.
  apply not_elem_of_nil.
Defined.

(** ** Links and images *)

Lemma visit_sources rec node :
  (∀ s es s', rec s = (Ok es, s') → forallb sources_ok es = true) →
  ∀ s es s', visit rec node s = (Ok es, s') → forallb sources_ok es = true.
Proof.
  intros Hrec s es s' H. unfold visit in H.
  repeat first [progress run_inv | case_match];
    repeat match goal with
    | H : rec _ = (Ok _, _) |- _ => apply Hrec in H
    | H : negb (truthy _) = false |- _ => apply negb_false_iff in H
    end;
    simpl in *; rewrite ?andb_true_r; try done.
  by apply andb_true_intro.
Qed.

Lemma loop_sources f nodes :
  Forall (λ c, ∀ s es s', f c s = (Ok es, s') → forallb sources_ok es = true)
         nodes →
  ∀ elements s es s',
    forallb sources_ok elements = true →
    loop f nodes elements s = (Ok es, s') →
    forallb sources_ok es = true.
Proof.
  induction 1 as [|c rest Hc _ IH]; intros elements s es s' Hacc H; simpl in H.
  - by run_inv.
  - run_inv. apply Hc in Hrun. eapply IH; [|exact H].
    by rewrite forallb_app, Hacc, Hrun.
Qed.

(** X15: every anchor in a result of [parse_children], at any depth, has a
    non-empty [href], and every image a non-empty [src]. *)
Theorem links_and_images_have_sources root self es self' :
  parse_children root self = (Ok es, self') →
  forallb sources_ok es = true.
Proof.
  revert self es self'.
  induction root as [t a x nodes IH] using LexborNode_forall_ind.
  intros self es self' H. simpl in H.
  refine (loop_sources _ nodes _ [] self es self' eq_refl H).
  eapply Forall_impl; [exact IH|]. intros c Hc. by apply visit_sources.
Qed.

Lemma links_and_images_have_sources_witness :
  parse_children scenario_body __init__
  = (Ok [ Heading 2 [Text "Title"];
          Paragraph [Text "Hi"; Anchor "/x" [Text "link"]];
          CheckboxInput 0 true ], {| id := 1 |})
  ∧ forallb sources_ok
      [ Heading 2 [Text "Title"];
        Paragraph [Text "Hi"; Anchor "/x" [Text "link"]];
        CheckboxInput 0 true ] = true.
Proof.
  assert (H : parse_children scenario_body __init__
              = (Ok [ Heading 2 [Text "Title"];
                      Paragraph [Text "Hi"; Anchor "/x" [Text "link"]];
                      CheckboxInput 0 true ], {| id := 1 |}))
    by (vm_compute; reflexivity).
  split; [exact H|]. exact (links_and_images_have_sources _ _ _ _ H).
Defined.

(** ** Independent parsers *)


